(** * Decibels waveform: drag scrubbing, rendering and peak aggregation

    A shallow embedding of [src/waveform.ts]: the [APWaveForm] widget (drag
    handlers, [drawFunc], [destroy]) and the [APPeaksGenerator] (bus message
    handler, [restart], [generate_peaks_async]), followed by the properties
    of the specification that concern them and by further properties of the
    drag sessions, of the drawing loop and of the message streams.

    ECMAScript numbers are modelled by [JS.number]: exact rationals for the
    finite values, together with the three special values that IEEE-754
    arithmetic produces ([Infinity], [-Infinity], [NaN]).  Rounding, overflow
    to infinity and the sign of zero are not modelled.  Arrays are lists; no
    array of the two classes is shared between two fields, so each field
    holds its own list.  Handlers return the new state together with the
    calls they make to the outside (signals, redraw requests, notifications),
    in program order. *)

From Stdlib Require Import String.
From Stdlib Require Import QArith ZArith List Bool Lia Lqa.
From Stdlib Require Import Qround Qabs.
From Stdlib Require Qcanon.
Import ListNotations.

Local Open Scope Q_scope.

(* ================================================================= *)
(** ** ECMAScript numbers *)

Module JS.

Inductive number : Type :=
| Fin (q : Q)
| PosInf
| NegInf
| NaN.

Definition of_Z (z : Z) : number := Fin (inject_Z z).
Definition of_nat (n : nat) : number := of_Z (Z.of_nat n).

Definition zero : number := of_Z 0.
Definition one : number := of_Z 1.

(** Unary minus. *)
Definition neg (a : number) : number :=
  match a with
  | Fin q => Fin (Qred (- q))
  | PosInf => NegInf
  | NegInf => PosInf
  | NaN => NaN
  end.

(** [a + b]. *)
Definition add (a b : number) : number :=
  match a, b with
  | NaN, _ | _, NaN => NaN
  | Fin x, Fin y => Fin (Qred (x + y))
  | PosInf, NegInf | NegInf, PosInf => NaN
  | PosInf, _ | _, PosInf => PosInf
  | NegInf, _ | _, NegInf => NegInf
  end.

(** [a - b]. *)
Definition sub (a b : number) : number := add a (neg b).

(** The product of an infinity of sign [pos] with the finite value [q]. *)
Definition scale_inf (pos : bool) (q : Q) : number :=
  match q ?= 0 with
  | Eq => NaN
  | Gt => if pos then PosInf else NegInf
  | Lt => if pos then NegInf else PosInf
  end.

(** [a * b]. *)
Definition mul (a b : number) : number :=
  match a, b with
  | NaN, _ | _, NaN => NaN
  | Fin x, Fin y => Fin (Qred (x * y))
  | PosInf, Fin y | Fin y, PosInf => scale_inf true y
  | NegInf, Fin y | Fin y, NegInf => scale_inf false y
  | PosInf, PosInf | NegInf, NegInf => PosInf
  | PosInf, NegInf | NegInf, PosInf => NegInf
  end.

(** [a / b].  A zero divisor is the positive zero: a finite non-zero
    dividend gives the infinity of its own sign and [0 / 0] is [NaN]. *)
Definition div (a b : number) : number :=
  match a, b with
  | NaN, _ | _, NaN => NaN
  | Fin x, Fin y =>
      match y ?= 0 with
      | Eq => scale_inf true x
      | _ => Fin (Qred (x / y))
      end
  | Fin _, (PosInf | NegInf) => zero
  | (PosInf | NegInf), (PosInf | NegInf) => NaN
  | PosInf, Fin y => if Qle_bool 0 y then PosInf else NegInf
  | NegInf, Fin y => if Qle_bool 0 y then NegInf else PosInf
  end.

(** [a < b]; every comparison with [NaN] is false. *)
Definition ltb (a b : number) : bool :=
  match a, b with
  | NaN, _ | _, NaN => false
  | Fin x, Fin y => match x ?= y with Lt => true | _ => false end
  | NegInf, NegInf => false
  | NegInf, _ => true
  | _, NegInf => false
  | PosInf, _ => false
  | Fin _, PosInf => true
  end.

(** [a > b]. *)
Definition gtb (a b : number) : bool := ltb b a.

(** [a <= b]. *)
Definition leb (a b : number) : bool :=
  match a, b with
  | NaN, _ | _, NaN => false
  | Fin x, Fin y => Qle_bool x y
  | NegInf, _ => true
  | _, PosInf => true
  | _, NegInf => false
  | PosInf, _ => false
  end.

(** [Math.min(a, b)] and [Math.max(a, b)]: [NaN] as soon as an argument is. *)
Definition Math_min (a b : number) : number :=
  match a, b with
  | NaN, _ | _, NaN => NaN
  | _, _ => if ltb b a then b else a
  end.

Definition Math_max (a b : number) : number :=
  match a, b with
  | NaN, _ | _, NaN => NaN
  | _, _ => if ltb a b then b else a
  end.

(** [Math.floor] and [Math.ceil]. *)
Definition Math_floor (a : number) : number :=
  match a with
  | Fin q => of_Z (Qfloor q)
  | _ => a
  end.

Definition Math_ceil (a : number) : number :=
  match a with
  | Fin q => of_Z (Qceiling q)
  | _ => a
  end.

(** Truncation toward zero of a rational. *)
Definition Qtrunc (q : Q) : Z :=
  if Qle_bool 0 q then Qfloor q else Qceiling q.

(** [ToIntegerOrInfinity], as applied to the argument of [Array.prototype.slice]:
    [NaN] counts as 0, infinities are kept, finite values are truncated. *)
Inductive integer_or_infinity : Type :=
| IntZ (z : Z)
| IntPosInf
| IntNegInf.

Definition ToIntegerOrInfinity (a : number) : integer_or_infinity :=
  match a with
  | NaN => IntZ 0
  | PosInf => IntPosInf
  | NegInf => IntNegInf
  | Fin q => IntZ (Qtrunc q)
  end.

(** [arr.slice(start)] with a single argument. *)
Definition slice {A : Type} (arr : list A) (start : number) : list A :=
  match ToIntegerOrInfinity start with
  | IntNegInf => arr
  | IntPosInf => []
  | IntZ z =>
      if (z <? 0)%Z
      then skipn (Z.to_nat (Z.max (Z.of_nat (length arr) + z) 0)) arr
      else skipn (Z.to_nat z) arr
  end.

(** [new Array(len)]: the length of the array of holes, or [None] where the
    constructor throws a [RangeError] ([len] is not an integer in
    [0, 2^32 - 1]). *)
Definition new_Array (len : number) : option nat :=
  match len with
  | Fin q =>
      if Qeq_bool q (inject_Z (Qfloor q))
         && (0 <=? Qfloor q)%Z && (Qfloor q <=? 4294967295)%Z
      then Some (Z.to_nat (Qfloor q))
      else None
  | _ => None
  end.

(** [holes.fill(v)]. *)
Definition fill (holes : nat) (v : number) : list number := repeat v holes.

(** [Number::exponentiate], the function behind [Math.pow].  The special
    cases are those of the language definition; a finite non-zero base with
    an integral exponent is the exact power, and the remaining, irrational
    case is left to [approx_pow], the engine's approximation. *)
Definition is_integral (q : Q) : bool := Qeq_bool q (inject_Z (Qfloor q)).

Definition Math_pow (approx_pow : Q -> Q -> Q) (base exponent : number)
  : number :=
  match exponent with
  | NaN => NaN
  | Fin e =>
      if Qeq_bool e 0 then one else
      match base with
      | NaN => NaN
      | PosInf => if Qle_bool 0 e then PosInf else zero
      | NegInf =>
          if Qle_bool 0 e
          then if is_integral e && Z.odd (Qfloor e) then NegInf else PosInf
          else zero
      | Fin b =>
          if Qeq_bool b 0 then (if Qle_bool 0 e then zero else PosInf)
          else if is_integral e then Fin (Qred (Qpower b (Qfloor e)))
          else if Qle_bool 0 b then Fin (approx_pow b e)
          else NaN
      end
  | PosInf =>
      match base with
      | NaN => NaN
      | PosInf => PosInf
      | NegInf => PosInf
      | Fin b =>
          match Qabs b ?= 1 with
          | Gt => PosInf
          | Eq => NaN
          | Lt => zero
          end
      end
  | NegInf =>
      match base with
      | NaN => NaN
      | PosInf => zero
      | NegInf => zero
      | Fin b =>
          match Qabs b ?= 1 with
          | Gt => zero
          | Eq => NaN
          | Lt => PosInf
          end
      end
  end.

End JS.

(* ================================================================= *)
(** ** The waveform widget: [class APWaveForm] *)

Module WaveForm.
Import JS.

Definition GUTTER : number := of_Z 4.

(** The fields of the widget that the handlers read and write.
    [drag_start_position] is [number | null] in the source. *)
Record APWaveForm : Type := mkWaveForm {
  _peaks : list number;
  _position : number;
  drag_start_position : option number
}.

(** What a handler does to the outside, in program order. *)
Inductive Effect : Type :=
| gesture_set_state_CLAIMED
| emit_gesture_pressed
| emit_position_changed (position : number)
| queue_draw
| notify_position.

(** The state left by the constructor. *)
Definition constructor : APWaveForm :=
  {| _peaks := []; _position := zero; drag_start_position := None |}.

(** The [position] accessors and the [peaks] setter. *)
Definition get_position (w : APWaveForm) : number := _position w.

Definition set_position (pos : number) (w : APWaveForm)
  : APWaveForm * list Effect :=
  ({| _peaks := _peaks w; _position := pos;
      drag_start_position := drag_start_position w |},
   [queue_draw; notify_position]).

Definition set_peaks (p : list number) (w : APWaveForm)
  : APWaveForm * list Effect :=
  ({| _peaks := p; _position := _position w;
      drag_start_position := drag_start_position w |},
   [queue_draw]).

(** *** Drag handlers *)

Definition dragBegin (w : APWaveForm) : APWaveForm * list Effect :=
  ({| _peaks := _peaks w; _position := _position w;
      drag_start_position := Some (_position w) |},
   [gesture_set_state_CLAIMED; emit_gesture_pressed]).

Definition dragUpdate (offset_x : number) (w : APWaveForm)
  : APWaveForm * list Effect :=
  match drag_start_position w with
  | Some start =>
      let after :=
        sub start (div offset_x (mul (of_nat (length (_peaks w))) GUTTER)) in
      ({| _peaks := _peaks w;
          _position := Math_max (Math_min after one) zero;
          drag_start_position := Some start |},
       [queue_draw])
  | None => (w, [])
  end.

Definition dragEnd (w : APWaveForm) : APWaveForm * list Effect :=
  ({| _peaks := _peaks w; _position := _position w;
      drag_start_position := None |},
   [emit_position_changed (get_position w)]).

(** The gesture callbacks as events, and the widget run over a sequence of
    them; the effects of the handlers are concatenated in order. *)
Inductive DragEvent : Type :=
| drag_begin
| drag_update (offset_x : number)
| drag_end.

Definition handle (e : DragEvent) (w : APWaveForm) : APWaveForm * list Effect :=
  match e with
  | drag_begin => dragBegin w
  | drag_update offset_x => dragUpdate offset_x w
  | drag_end => dragEnd w
  end.

Fixpoint run (es : list DragEvent) (w : APWaveForm)
  : APWaveForm * list Effect :=
  match es with
  | [] => (w, [])
  | e :: rest =>
      let (w1, out1) := handle e w in
      let (w2, out2) := run rest w1 in
      (w2, out1 ++ out2)
  end.

(** The [position-changed] emissions among a list of effects. *)
Fixpoint position_changed_values (out : list Effect) : list number :=
  match out with
  | [] => []
  | emit_position_changed p :: rest => p :: position_changed_values rest
  | _ :: rest => position_changed_values rest
  end.

Fixpoint count_gesture_pressed (out : list Effect) : nat :=
  match out with
  | [] => O
  | emit_gesture_pressed :: rest => S (count_gesture_pressed rest)
  | _ :: rest => count_gesture_pressed rest
  end.

(** [0 <= p <= 1]. *)
Definition in_unit_interval (p : number) : bool := leb zero p && leb p one.

(** *** Rendering *)

Record RGBA : Type := mkRGBA { red : number; green : number; blue : number; alpha : number }.

(** The style context: the foreground colour and the lookup of named
    colours, which answers with a found flag and a colour. *)
Record StyleContext : Type := mkStyle {
  get_color : RGBA;
  lookup_color : string -> bool * RGBA
}.

Inductive CairoOp : Type :=
| setLineCap_ROUND
| setLineWidth (width : number)
| setSourceRGBA (r g b a : number)
| moveTo (x y : number)
| lineTo (x y : number)
| stroke.

Definition setSource (rgba : RGBA) : CairoOp :=
  setSourceRGBA (red rgba) (green rgba) (blue rgba) (alpha rgba).

(** The side of the divider a bar is painted for: [leftColor] or
    [rightColor]. *)
Inductive Zone : Type := LeftZone | RightZone.

(** One iteration of the loop that reaches the drawing calls. *)
Record Bar : Type := mkBar {
  bar_pointer : number;
  bar_zone : Zone;
  bar_peak : number
}.

(** [pointer] as first computed. *)
Definition initial_pointer (w : APWaveForm) (width : number) : number :=
  let horizCenter := div width (of_Z 2) in
  sub horizCenter (mul (mul (_position w) (of_nat (length (_peaks w)))) GUTTER).

(** The adjustment before the loop: [(invisible_peaks, pointer)]. *)
Definition skip_invisible (pointer : number) : number * number :=
  if ltb pointer zero
  then let invisible_peaks := neg (Math_floor pointer) in
       (invisible_peaks, add pointer invisible_peaks)
  else (zero, pointer).

(** The [for ... of] loop over the sliced peaks.  [width] stands for both
    the argument of the draw function and [this.get_width()]. *)
Fixpoint draw_loop (width horizCenter pointer : number) (peaks : list number)
  : list Bar :=
  match peaks with
  | [] => []
  | peak :: rest =>
      if ltb pointer zero
      then draw_loop width horizCenter (add pointer GUTTER) rest
      else if gtb pointer width then []
      else
        mkBar pointer (if gtb pointer horizCenter then RightZone else LeftZone) peak
        :: draw_loop width horizCenter (add pointer GUTTER) rest
  end.

(** The peaks the loop ranges over, and the bars it draws. *)
Definition visible_peaks (w : APWaveForm) (width : number) : list number :=
  slice (_peaks w) (div (fst (skip_invisible (initial_pointer w width))) GUTTER).

Definition bars (w : APWaveForm) (width : number) : list Bar :=
  draw_loop width (div width (of_Z 2))
    (snd (skip_invisible (initial_pointer w width)))
    (visible_peaks w width).

Definition paint_bar (leftColor rightColor : RGBA) (vertiCenter height : number)
    (b : Bar) : list CairoOp :=
  [ setSource (match bar_zone b with RightZone => rightColor | LeftZone => leftColor end);
    moveTo (bar_pointer b) (add vertiCenter (mul (bar_peak b) height));
    lineTo (bar_pointer b) (sub vertiCenter (mul (bar_peak b) height));
    stroke ].

Definition drawFunc (w : APWaveForm) (styleContext : StyleContext)
    (width height : number) : list CairoOp :=
  let vertiCenter := div height (of_Z 2) in
  let horizCenter := div width (of_Z 2) in
  let leftColor := get_color styleContext in
  let rightColor := snd (lookup_color styleContext "dimmed_color"%string) in
  let lookupColor := lookup_color styleContext "accent_color"%string in
  let dividerColor :=
    if fst lookupColor then snd lookupColor else get_color styleContext in
  [ setLineCap_ROUND; setLineWidth (of_Z 2); setSource dividerColor;
    moveTo horizCenter (sub vertiCenter height);
    lineTo horizCenter (add vertiCenter height);
    stroke; setLineWidth (of_Z 1) ]
  ++ flat_map (paint_bar leftColor rightColor vertiCenter height) (bars w width).

(** The skip that the specification describes, for comparison with
    [skip_invisible]: [ceil(-pointer / GUTTER)] peaks, and [pointer] advanced
    by that count times [GUTTER]. *)
Definition spec_skipped_count (pointer : number) : number :=
  if ltb pointer zero then Math_ceil (div (neg pointer) GUTTER) else zero.

Definition spec_pointer (pointer : number) : number :=
  add pointer (mul (spec_skipped_count pointer) GUTTER).

Definition spec_bars (w : APWaveForm) (width : number) : list Bar :=
  let pointer := initial_pointer w width in
  draw_loop width (div width (of_Z 2)) (spec_pointer pointer)
    (slice (_peaks w) (spec_skipped_count pointer)).

(** The widget of the examples: three peaks, position one half. *)
Definition three_peaks : APWaveForm :=
  {| _peaks := [one; Fin (1 # 2); one];
     _position := Fin (1 # 2);
     drag_start_position := None |}.

(** A style context that knows the two named colours. *)
Definition plain_style : StyleContext :=
  {| get_color := mkRGBA one one one one;
     lookup_color := fun _ => (true, mkRGBA zero zero zero one) |}.

(** [destroy()]: disconnects the high-contrast handler from the style
    manager, empties the peak array and asks for a redraw. *)
Inductive TeardownEffect : Type :=
| StyleManager_disconnect_hcId
| teardown_queue_draw.

Definition destroy (w : APWaveForm) : APWaveForm * list TeardownEffect :=
  ({| _peaks := []; _position := _position w;
      drag_start_position := drag_start_position w |},
   [StyleManager_disconnect_hcId; teardown_queue_draw]).

End WaveForm.

(* ================================================================= *)
(** ** The peak aggregator: [class APPeaksGenerator] *)

Module PeaksGenerator.
Import JS.

(** [static INTERVAL], in nanoseconds of pipeline time. *)
Definition INTERVAL : number := of_Z 100000000.

Record APPeaksGenerator : Type := mkGenerator {
  loadedPeaks : list number;
  _peaks : list number;
  started : bool
}.

(** The state of a freshly constructed generator. *)
Definition constructor : APPeaksGenerator :=
  {| loadedPeaks := []; _peaks := []; started := false |}.

(** What a method or the bus handler does to the outside. *)
Inductive Effect : Type :=
| notify_peaks
| throttled_notify_peaks
| pipeline_set_state_NULL.

(** How a handler ends: by returning, or with the [RangeError] that
    [new Array] raises. *)
Inductive Completion : Type :=
| Returned
| RangeError.

Record Outcome : Type := mkOutcome {
  after : APPeaksGenerator;
  effects : list Effect;
  completion : Completion
}.

Definition get_peaks (g : APPeaksGenerator) : list number := _peaks g.

(** The [peaks] setter: store, then notify at once. *)
Definition set_peaks (peaks : list number) (g : APPeaksGenerator)
  : APPeaksGenerator * list Effect :=
  ({| loadedPeaks := loadedPeaks g; _peaks := peaks; started := started g |},
   [notify_peaks]).

Definition restart (g : APPeaksGenerator) : APPeaksGenerator :=
  {| loadedPeaks := []; _peaks := []; started := true |}.

(** The pipeline that [generate_peaks_async] launches; [duration] is the
    argument that the bus handler closes over. *)
Inductive GstState : Type := PLAYING | NULL.

Record Pipeline : Type := mkPipeline {
  uridecodebin_uri : string;
  fakesink_qos : bool;
  fakesink_sync : bool;
  pipeline_state : GstState;
  duration : number
}.

Definition generate_peaks_async (uri : string) (duration : number)
    (g : APPeaksGenerator) : APPeaksGenerator * Pipeline :=
  (g,
   {| uridecodebin_uri := uri; fakesink_qos := false; fakesink_sync := false;
      pipeline_state := PLAYING; duration := duration |}).

(** The bus messages as the handler tells them apart: an element message
    whose structure is named "level" and carries a peak array (with its first
    entry, in decibels), end of stream, and everything that falls through the
    switch. *)
Inductive Message : Type :=
| ELEMENT_level (peak : number)
| EOS
| other_message.

Section Handler.

(** The engine's [Math.pow] where the result is irrational. *)
Variable approx_pow : Q -> Q -> Q.

(** [Math.pow(10, peak / 20)]. *)
Definition to_linear (peak : number) : number :=
  Math_pow approx_pow (of_Z 10) (div peak (of_Z 20)).

(** The callback connected to the bus by [generate_peaks_async(uri, duration)]. *)
Definition on_message (duration : number) (message : Message)
    (g : APPeaksGenerator) : Outcome :=
  match message with
  | ELEMENT_level peak =>
      let pushed := loadedPeaks g ++ [to_linear peak] in
      let g1 := {| loadedPeaks := pushed; _peaks := _peaks g;
                   started := started g |} in
      if gtb duration zero then
        let peaks_number := Math_ceil (div duration INTERVAL) in
        let remaining_peaks := sub peaks_number (of_nat (length pushed)) in
        match new_Array remaining_peaks with
        | None => mkOutcome g1 [] RangeError
        | Some holes =>
            mkOutcome
              {| loadedPeaks := pushed; _peaks := pushed ++ fill holes zero;
                 started := started g |}
              [throttled_notify_peaks] Returned
        end
      else mkOutcome g1 [] Returned
  | EOS =>
      let (g1, out) :=
        if started g then set_peaks (loadedPeaks g) g else (g, []) in
      mkOutcome
        {| loadedPeaks := []; _peaks := _peaks g1; started := started g1 |}
        (out ++ [pipeline_set_state_NULL]) Returned
  | other_message => mkOutcome g [] Returned
  end.

(** A run of level samples delivered to the handler, one message each; a
    handler that ends with an exception leaves its writes in place and the
    next message is delivered all the same. *)
Fixpoint feed (duration : number) (samples : list number)
    (g : APPeaksGenerator) : APPeaksGenerator :=
  match samples with
  | [] => g
  | peak :: rest =>
      feed duration rest (after (on_message duration (ELEMENT_level peak) g))
  end.

(** Whether a handler run published an interim array. *)
Definition publishes_interim (o : Outcome) : bool :=
  existsb (fun e => match e with throttled_notify_peaks => true | _ => false end)
          (effects o).

Definition publishes_final (o : Outcome) : bool :=
  existsb (fun e => match e with notify_peaks => true | _ => false end)
          (effects o).

(** The bus handlers run over an inbox.  Every message comes with the
    duration that the handler of its pipeline closed over, since each call of
    [generate_peaks_async] connects a handler of its own to the one
    generator; the effects are concatenated in order. *)
Fixpoint deliver (inbox : list (number * Message)) (g : APPeaksGenerator)
  : APPeaksGenerator * list Effect :=
  match inbox with
  | [] => (g, [])
  | (duration, message) :: rest =>
      let o := on_message duration message g in
      let (g', out) := deliver rest (after o) in
      (g', effects o ++ out)
  end.

End Handler.

(** The state of a generator stopped in the middle of a stream, with
    [restart] never called. *)
Definition stale_generator : APPeaksGenerator :=
  {| loadedPeaks := [one]; _peaks := [one; zero]; started := false |}.

End PeaksGenerator.

(* ================================================================= *)
(** ** Properties of the number model *)

Section NumberFacts.
Import JS.

Lemma ltb_irrefl (a : number) : ltb a a = false.
Proof.
  destruct a as [q| | |]; simpl; try reflexivity.
  assert (E : (q ?= q) = Eq) by (apply Qeq_alt; reflexivity).
  now rewrite E.
Qed.

(** The clamp of [dragUpdate] lands in the unit interval on every argument
    but [NaN], which it lets through. *)
Lemma clamp_unit (a : number) :
  a <> NaN ->
  leb zero (Math_max (Math_min a one) zero) = true
  /\ leb (Math_max (Math_min a one) zero) one = true.
Proof.
  intros Ha. destruct a as [q| | |];
    [ | now vm_compute | now vm_compute | congruence ].
  unfold Math_min. cbn [ltb one zero of_Z].
  destruct (inject_Z 1 ?= q) eqn:E1.
  - (* 1 == q *)
    apply Qeq_alt in E1.
    unfold Math_max; cbn [ltb zero of_Z].
    destruct (q ?= inject_Z 0) eqn:E0.
    + apply Qeq_alt in E0. rewrite E0 in E1. discriminate.
    + apply Qlt_alt in E0. rewrite <- E1 in E0. discriminate.
    + cbn [leb]. split; apply Qle_bool_iff; rewrite <- E1; discriminate.
  - (* 1 < q : the minimum is 1 *)
    now vm_compute.
  - (* q < 1 *)
    apply Qgt_alt in E1.
    unfold Math_max; cbn [ltb zero of_Z].
    destruct (q ?= inject_Z 0) eqn:E0.
    + cbn [leb]. apply Qeq_alt in E0.
      split; apply Qle_bool_iff; rewrite E0; discriminate.
    + now vm_compute.
    + apply Qgt_alt in E0. cbn [leb].
      split; apply Qle_bool_iff; apply Qlt_le_weak; assumption.
Qed.

End NumberFacts.

(* ================================================================= *)
(** ** The drag handlers *)

Section DragFacts.
Import JS WaveForm.

Lemma run_app (es1 es2 : list DragEvent) (w : APWaveForm) :
  run (es1 ++ es2) w =
  (fst (run es2 (fst (run es1 w))),
   snd (run es1 w) ++ snd (run es2 (fst (run es1 w)))).
Proof.
  revert w. induction es1 as [|e es1 IH]; intros w; simpl.
  - now destruct (run es2 w).
  - destruct (handle e w) as [w1 out1]. rewrite IH.
    destruct (run es1 w1) as [w2 out2]. simpl.
    now rewrite app_assoc.
Qed.

Lemma position_changed_values_app (out1 out2 : list Effect) :
  position_changed_values (out1 ++ out2) =
  position_changed_values out1 ++ position_changed_values out2.
Proof.
  induction out1 as [|e out1 IH]; simpl; [reflexivity|].
  destruct e; simpl; now rewrite IH.
Qed.

Lemma count_gesture_pressed_app (out1 out2 : list Effect) :
  count_gesture_pressed (out1 ++ out2) =
  (count_gesture_pressed out1 + count_gesture_pressed out2)%nat.
Proof.
  induction out1 as [|e out1 IH]; simpl; [reflexivity|].
  destruct e; simpl; now rewrite IH.
Qed.

(** [dragUpdate] emits neither signal, whatever the state. *)
Lemma dragUpdate_silent (offset_x : number) (w : APWaveForm) :
  position_changed_values (snd (dragUpdate offset_x w)) = []
  /\ count_gesture_pressed (snd (dragUpdate offset_x w)) = O.
Proof. unfold dragUpdate. now destruct (drag_start_position w). Qed.

Lemma updates_silent (offsets : list number) (w : APWaveForm) :
  position_changed_values (snd (run (map drag_update offsets) w)) = []
  /\ count_gesture_pressed (snd (run (map drag_update offsets) w)) = O.
Proof.
  revert w. induction offsets as [|o offsets IH]; intros w; simpl; [easy|].
  destruct (dragUpdate_silent o w) as [Hp Hg].
  destruct (dragUpdate o w) as [w1 out1]; simpl in *.
  destruct (IH w1) as [Hp' Hg'].
  destruct (run (map drag_update offsets) w1) as [w2 out2]; simpl in *.
  rewrite position_changed_values_app, count_gesture_pressed_app.
  now rewrite Hp, Hp', Hg, Hg'.
Qed.

(** Updates keep the peaks and the captured start position. *)
Lemma dragUpdate_frame (offset_x : number) (w : APWaveForm) :
  _peaks (fst (dragUpdate offset_x w)) = _peaks w
  /\ drag_start_position (fst (dragUpdate offset_x w)) = drag_start_position w.
Proof.
  unfold dragUpdate. now destruct (drag_start_position w) eqn:E.
Qed.

Lemma updates_frame (offsets : list number) (w : APWaveForm) :
  _peaks (fst (run (map drag_update offsets) w)) = _peaks w
  /\ drag_start_position (fst (run (map drag_update offsets) w))
     = drag_start_position w.
Proof.
  revert w. induction offsets as [|o offsets IH]; intros w; simpl; [easy|].
  destruct (dragUpdate_frame o w) as [Hp Hs].
  destruct (dragUpdate o w) as [w1 out1]; simpl in *.
  destruct (IH w1) as [Hp' Hs'].
  destruct (run (map drag_update offsets) w1) as [w2 out2]; simpl in *.
  split; congruence.
Qed.

(** What an update computes during a drag. *)
Lemma dragUpdate_dragging (offset_x start : number) (w : APWaveForm) :
  drag_start_position w = Some start ->
  _position (fst (dragUpdate offset_x w)) =
  Math_max
    (Math_min
       (sub start (div offset_x (mul (of_nat (length (_peaks w))) GUTTER)))
       one)
    zero.
Proof. intros H. unfold dragUpdate. now rewrite H. Qed.

(** Away from [NaN] the clamp keeps the position in the unit interval. *)
Lemma dragUpdate_in_unit_interval (offset_x start : number) (w : APWaveForm) :
  drag_start_position w = Some start ->
  sub start (div offset_x (mul (of_nat (length (_peaks w))) GUTTER)) <> NaN ->
  in_unit_interval (_position (fst (dragUpdate offset_x w))) = true.
Proof.
  intros Hs Hn. rewrite (dragUpdate_dragging _ _ _ Hs).
  unfold in_unit_interval.
  destruct (clamp_unit _ Hn) as [H0 H1]. now rewrite H0, H1.
Qed.

(** C1, the claim as stated, fails: [dragEnd] has no guard.  On the freshly
    constructed widget, where no drag is active, it emits [position-changed];
    and a second [drag-end] after a complete session emits it a second
    time. *)
Lemma dragEnd_idle_emits :
  drag_start_position constructor = None
  /\ position_changed_values (snd (dragEnd constructor)) = [zero]
  /\ drag_start_position (fst (run [drag_begin; drag_end] constructor)) = None
  /\ position_changed_values
       (snd (run [drag_begin; drag_end; drag_end] constructor)) = [zero; zero].
Proof. repeat split. Qed.

(** C1, amended: [dragEnd] checks no state.  In every state it clears the
    captured start position, leaves the position and the peaks as they are
    and emits [position-changed] once, carrying the current position; over a
    drag session (a begin, any updates, an end) [position-changed] is
    emitted exactly once, by the end, and carries the final position. *)
Theorem dragEnd_emits_once_per_session (w : APWaveForm) (offsets : list number) :
  drag_start_position (fst (dragEnd w)) = None
  /\ _position (fst (dragEnd w)) = _position w
  /\ _peaks (fst (dragEnd w)) = _peaks w
  /\ snd (dragEnd w) = [emit_position_changed (_position w)]
  /\ position_changed_values
       (snd (run (drag_begin :: map drag_update offsets) w)) = []
  /\ position_changed_values
       (snd (run (drag_begin :: map drag_update offsets ++ [drag_end]) w))
     = [_position
          (fst (run (drag_begin :: map drag_update offsets ++ [drag_end]) w))].
Proof.
  repeat split.
  - change (drag_begin :: map drag_update offsets)
      with ([drag_begin] ++ map drag_update offsets).
    rewrite run_app. cbn [fst snd].
    rewrite position_changed_values_app.
    now rewrite (proj1 (updates_silent offsets _)).
  - change (drag_begin :: map drag_update offsets ++ [drag_end])
      with ([drag_begin] ++ (map drag_update offsets ++ [drag_end])).
    rewrite run_app. cbn [fst snd].
    rewrite (run_app (map drag_update offsets) [drag_end]). cbn [fst snd].
    rewrite !position_changed_values_app.
    rewrite (proj1 (updates_silent offsets _)).
    reflexivity.
Qed.

(** C10: [dragBegin] checks no state.  In every state it claims the
    gesture, overwrites the captured start position with the current
    position and emits [gesture-pressed]; so a second begin in the middle of
    a drag emits [gesture-pressed] a second time and the updates that follow
    are measured from the position the view had at that second begin. *)
Theorem dragBegin_unconditional (w : APWaveForm)
    (offsets : list number) (offset_x : number) :
  let mid := fst (run (drag_begin :: map drag_update offsets) w) in
  dragBegin w =
    ({| _peaks := _peaks w; _position := _position w;
        drag_start_position := Some (_position w) |},
     [gesture_set_state_CLAIMED; emit_gesture_pressed])
  /\ drag_start_position mid = Some (_position w)
  /\ drag_start_position (fst (dragBegin mid)) = Some (_position mid)
  /\ count_gesture_pressed
       (snd (run (drag_begin :: map drag_update offsets ++ [drag_begin]) w))
     = 2%nat
  /\ _position (fst (dragUpdate offset_x (fst (dragBegin mid)))) =
     Math_max
       (Math_min
          (sub (_position mid)
             (div offset_x (mul (of_nat (length (_peaks mid))) GUTTER)))
          one)
       zero.
Proof.
  intros mid. repeat split.
  - subst mid.
    change (drag_begin :: map drag_update offsets)
      with ([drag_begin] ++ map drag_update offsets).
    rewrite run_app. cbn [fst].
    now rewrite (proj2 (updates_frame offsets _)).
  - change (drag_begin :: map drag_update offsets ++ [drag_begin])
      with ([drag_begin] ++ (map drag_update offsets ++ [drag_begin])).
    rewrite run_app. cbn [fst snd].
    rewrite (run_app (map drag_update offsets) [drag_begin]). cbn [fst snd].
    rewrite !count_gesture_pressed_app.
    now rewrite (proj2 (updates_silent offsets _)).
Qed.

(** C5 at its failing input: on the freshly constructed widget the peak
    array is empty, so an update with offset 0 divides 0 by 0; the [NaN]
    passes through [Math.min] and [Math.max] and becomes the position, which
    is not in the unit interval. *)
Theorem dragUpdate_empty_peaks_NaN :
  let w := fst (run [drag_begin; drag_update zero] constructor) in
  _peaks constructor = []
  /\ div zero (mul (of_nat (length (_peaks constructor))) GUTTER) = NaN
  /\ _position w = NaN
  /\ in_unit_interval (_position w) = false.
Proof. repeat split. Qed.

End DragFacts.

(* ================================================================= *)
(** ** Rendering *)

Section RenderFacts.
Import JS WaveForm.

(** Every bar that the loop draws passed its three tests. *)
Lemma draw_loop_bar (width horizCenter : number) (peaks : list number) :
  forall (pointer : number) (b : Bar),
    In b (draw_loop width horizCenter pointer peaks) ->
    ltb (bar_pointer b) zero = false
    /\ gtb (bar_pointer b) width = false
    /\ bar_zone b =
       (if gtb (bar_pointer b) horizCenter then RightZone else LeftZone).
Proof.
  induction peaks as [|peak rest IH]; intros pointer b Hin; simpl in Hin.
  - contradiction.
  - destruct (ltb pointer zero) eqn:Hneg; [now apply IH in Hin|].
    destruct (gtb pointer width) eqn:Hout; [contradiction|].
    destruct Hin as [<- | Hin]; [now simpl | now apply IH in Hin].
Qed.

(** No bar is drawn at a negative pointer: the test at the head of the loop
    body sees to it, whatever the adjustment before the loop did. *)
Lemma bars_not_negative (w : APWaveForm) (width : number) (b : Bar) :
  In b (bars w width) -> ltb (bar_pointer b) zero = false.
Proof. intros Hin. now apply draw_loop_bar in Hin. Qed.

(** C4 at its failing input: three peaks, position 1/2, width 8, so that
    [pointer] starts at -2.  The source takes [invisible_peaks = 2], a pixel
    count, moves [pointer] to 0 and slices at [2 / 4], that is at 0: no peak
    is skipped and the bars are drawn at 0, 4 and 8.  The specification skips
    [ceil(2 / 4) = 1] peak and moves [pointer] to 2: bars at 2 and 6, which
    are the places [pointer + i * GUTTER] of the peaks 1 and 2 counted from
    the pointer as first computed, those that the loop gives every peak when
    nothing is skipped. *)
Theorem drawFunc_skip_misaligned :
  let width := of_Z 8 in
  initial_pointer three_peaks width = of_Z (-2)
  /\ map (fun i => add (initial_pointer three_peaks width) (mul (of_nat i) GUTTER))
       [0%nat; 1%nat; 2%nat] = [of_Z (-2); of_Z 2; of_Z 6]
  /\ skip_invisible (of_Z (-2)) = (of_Z 2, of_Z 0)
  /\ visible_peaks three_peaks width = _peaks three_peaks
  /\ map bar_pointer (bars three_peaks width) = [of_Z 0; of_Z 4; of_Z 8]
  /\ map bar_peak (bars three_peaks width) = [one; Fin (1 # 2); one]
  /\ spec_skipped_count (of_Z (-2)) = of_Z 1
  /\ spec_pointer (of_Z (-2)) = of_Z 2
  /\ map bar_pointer (spec_bars three_peaks width) = [of_Z 2; of_Z 6]
  /\ map bar_peak (spec_bars three_peaks width) = [Fin (1 # 2); one].
Proof. vm_compute. repeat split. Qed.

(** The drawing calls of a bar are among those of [drawFunc]. *)
Lemma drawFunc_paints_bars (w : APWaveForm) (styleContext : StyleContext)
    (width height : number) (b : Bar) :
  In b (bars w width) ->
  incl (paint_bar (get_color styleContext)
          (snd (lookup_color styleContext "dimmed_color"%string))
          (div height (of_Z 2)) height b)
       (drawFunc w styleContext width height).
Proof.
  intros Hin op Hop. unfold drawFunc.
  apply in_or_app. right. apply in_flat_map. now exists b.
Qed.

(** C9: a bar is painted in the right-zone colour, the one looked up as
    "dimmed_color", exactly when its pointer is strictly greater than
    [horizCenter]; a bar whose pointer is [horizCenter] itself is painted in
    the left-zone colour, the foreground colour. *)
Theorem color_boundary (w : APWaveForm) (styleContext : StyleContext)
    (width height : number) (b : Bar) :
  let horizCenter := div width (of_Z 2) in
  let vertiCenter := div height (of_Z 2) in
  let leftColor := get_color styleContext in
  let rightColor := snd (lookup_color styleContext "dimmed_color"%string) in
  In b (bars w width) ->
  (bar_zone b = RightZone <-> gtb (bar_pointer b) horizCenter = true)
  /\ (bar_pointer b = horizCenter -> bar_zone b = LeftZone)
  /\ paint_bar leftColor rightColor vertiCenter height b =
     [ setSource (if gtb (bar_pointer b) horizCenter
                  then rightColor else leftColor);
       moveTo (bar_pointer b) (add vertiCenter (mul (bar_peak b) height));
       lineTo (bar_pointer b) (sub vertiCenter (mul (bar_peak b) height));
       stroke ]
  /\ incl (paint_bar leftColor rightColor vertiCenter height b)
          (drawFunc w styleContext width height).
Proof.
  intros horizCenter vertiCenter leftColor rightColor Hin.
  pose proof (drawFunc_paints_bars w styleContext width height b Hin) as Hdraw.
  apply draw_loop_bar in Hin. destruct Hin as (_ & _ & Hz).
  fold horizCenter in Hz.
  split; [|split; [|split]].
  - split.
    + intros Hr. rewrite Hz in Hr.
      now destruct (gtb (bar_pointer b) horizCenter).
    + intros Hg. now rewrite Hz, Hg.
  - intros He. rewrite Hz, He. unfold gtb. now rewrite ltb_irrefl.
  - unfold paint_bar. rewrite Hz.
    now destruct (gtb (bar_pointer b) horizCenter).
  - exact Hdraw.
Qed.

(** The middle bar of [three_peaks] at width 8 stands on the divider. *)
Lemma color_boundary_witness :
  let b := {| bar_pointer := of_Z 4; bar_zone := LeftZone;
              bar_peak := Fin (1 # 2) |} in
  In b (bars three_peaks (of_Z 8))
  /\ bar_pointer b = div (of_Z 8) (of_Z 2)
  /\ bar_zone b = LeftZone.
Proof.
  intros b. split; [vm_compute; auto | split; [reflexivity|]].
  apply (color_boundary three_peaks plain_style (of_Z 8) (of_Z 2) b).
  - vm_compute; auto.
  - reflexivity.
Defined.

End RenderFacts.

(* ================================================================= *)
(** ** Array lengths *)

Section ArrayFacts.
Import JS.

Lemma sub_of_Z (a b : Z) : sub (of_Z a) (of_Z b) = of_Z (a - b).
Proof.
  unfold sub, neg, add, of_Z. f_equal.
  transitivity (Qred (inject_Z (a - b))).
  - apply Qred_complete. rewrite Qred_correct.
    unfold Z.sub. now rewrite inject_Z_plus, inject_Z_opp.
  - apply Qcanon.Qred_identity. simpl. apply Z.gcd_1_r.
Qed.

Lemma new_Array_of_Z (z : Z) :
  new_Array (of_Z z) =
  if ((0 <=? z) && (z <=? 4294967295))%Z then Some (Z.to_nat z) else None.
Proof.
  unfold new_Array, of_Z. rewrite Qfloor_Z, Qeq_bool_refl. reflexivity.
Qed.

(** [Math.ceil] gives an integer or gives back a value that is not finite. *)
Lemma Math_ceil_cases (x : number) :
  (exists c : Z, Math_ceil x = of_Z c)
  \/ (Math_ceil x = PosInf \/ Math_ceil x = NegInf \/ Math_ceil x = NaN).
Proof. destruct x; simpl; eauto. Qed.

(** Where [new Array(peaks_number - k)] returns, the holes make up the
    difference exactly. *)
Lemma new_Array_remaining (x : number) (k holes : nat) :
  new_Array (sub (Math_ceil x) (of_nat k)) = Some holes ->
  Math_ceil x = of_nat (k + holes).
Proof.
  destruct (Math_ceil_cases x) as [[c ->] | [-> | [-> | ->]]];
    try discriminate.
  unfold of_nat at 1. rewrite sub_of_Z, new_Array_of_Z.
  destruct ((0 <=? c - Z.of_nat k) && (c - Z.of_nat k <=? 4294967295))%Z eqn:E;
    [|discriminate].
  intros [= <-]. apply andb_prop in E. destruct E as [E0 _].
  apply Z.leb_le in E0. unfold of_nat. f_equal. lia.
Qed.

(** And it returns whenever the buffer fits in an array of a legal length. *)
Lemma new_Array_fits (x : number) (n : Z) (k : nat) :
  Math_ceil x = of_Z n ->
  (Z.of_nat k <= n <= 4294967295)%Z ->
  new_Array (sub (Math_ceil x) (of_nat k)) = Some (Z.to_nat (n - Z.of_nat k)).
Proof.
  intros -> [Hk Hn]. unfold of_nat. rewrite sub_of_Z, new_Array_of_Z.
  replace ((0 <=? n - Z.of_nat k) && (n - Z.of_nat k <=? 4294967295))%Z
    with true; [reflexivity|].
  symmetry. apply andb_true_intro. split; apply Z.leb_le; lia.
Qed.

Lemma firstn_length_app {A : Type} (l1 l2 : list A) :
  firstn (length l1) (l1 ++ l2) = l1.
Proof. induction l1 as [|a l1 IH]; simpl; [now destruct l2 | now rewrite IH]. Qed.

Lemma skipn_length_app {A : Type} (l1 l2 : list A) :
  skipn (length l1) (l1 ++ l2) = l2.
Proof. induction l1 as [|a l1 IH]; simpl; [reflexivity | assumption]. Qed.

End ArrayFacts.

(* ================================================================= *)
(** ** The peak aggregator *)

Section AggregatorFacts.
Import JS PeaksGenerator.

Variable approx_pow : Q -> Q -> Q.

Local Abbreviation to_linear := (to_linear approx_pow).
Local Abbreviation on_message := (on_message approx_pow).
Local Abbreviation feed := (feed approx_pow).

(** A level message appends the converted sample and leaves [started]. *)
Lemma level_pushes (duration peak : number) (g : APPeaksGenerator) :
  loadedPeaks (after (on_message duration (ELEMENT_level peak) g)) =
    loadedPeaks g ++ [to_linear peak]
  /\ started (after (on_message duration (ELEMENT_level peak) g)) = started g.
Proof.
  unfold PeaksGenerator.on_message.
  destruct (gtb duration zero); [|easy].
  now destruct (new_Array _).
Qed.

Lemma feed_pushes (duration : number) (samples : list number) :
  forall g : APPeaksGenerator,
    loadedPeaks (feed duration samples g) =
      loadedPeaks g ++ map to_linear samples
    /\ started (feed duration samples g) = started g.
Proof.
  induction samples as [|peak rest IH]; intros g;
    cbn [PeaksGenerator.feed map].
  - now rewrite app_nil_r.
  - destruct (IH (after (on_message duration (ELEMENT_level peak) g)))
      as [Hl Hs].
    destruct (level_pushes duration peak g) as [Hl1 Hs1].
    rewrite Hl, Hs, Hl1, Hs1. now rewrite <- app_assoc.
Qed.

(** The interim array of a level message that publishes. *)
Lemma level_interim (duration peak : number) (g : APPeaksGenerator) :
  let o := on_message duration (ELEMENT_level peak) g in
  publishes_interim o = true ->
  exists holes : nat,
    _peaks (after o) = loadedPeaks (after o) ++ repeat zero holes
    /\ Math_ceil (div duration INTERVAL)
       = of_nat (length (loadedPeaks (after o)) + holes).
Proof.
  unfold PeaksGenerator.on_message.
  destruct (gtb duration zero); [|discriminate].
  destruct (new_Array _) as [holes|] eqn:E; [|discriminate].
  intros _. exists holes. cbn [after _peaks loadedPeaks]. split; [reflexivity|].
  now apply new_Array_remaining.
Qed.

(** A level message publishes when the duration is positive and the buffer,
    the new sample included, fits in the duration-derived length. *)
Lemma level_publishes (duration peak : number) (g : APPeaksGenerator) (n : Z) :
  gtb duration zero = true ->
  Math_ceil (div duration INTERVAL) = of_Z n ->
  (Z.of_nat (S (length (loadedPeaks g))) <= n <= 4294967295)%Z ->
  publishes_interim (on_message duration (ELEMENT_level peak) g) = true
  /\ completion (on_message duration (ELEMENT_level peak) g) = Returned.
Proof.
  intros Hd Hn Hk. unfold PeaksGenerator.on_message. rewrite Hd.
  rewrite (new_Array_fits _ n (length (loadedPeaks g ++ [to_linear peak])) Hn).
  - now split.
  - rewrite length_app. simpl. lia.
Qed.

(** C2: in a session of duration [duration], after the samples [earlier]
    and then [peak] were delivered to a generator whose buffer held [g]'s
    contents at the start (none, after [restart] or an end of stream): the
    buffer holds the converted samples in arrival order; if the handler
    publishes an interim array, that array has length
    [ceil(duration / INTERVAL)], begins with the buffer and is zero from
    there on; and the handler does publish whenever the duration is positive
    and the buffer is no longer than that length. *)
Theorem interim_peaks_shape (duration : number) (g : APPeaksGenerator)
    (earlier : list number) (peak : number) :
  let o := on_message duration (ELEMENT_level peak) (feed duration earlier g) in
  let k := length (loadedPeaks (after o)) in
  loadedPeaks (after o) = loadedPeaks g ++ map to_linear (earlier ++ [peak])
  /\ (publishes_interim o = true ->
      of_nat (length (_peaks (after o))) = Math_ceil (div duration INTERVAL)
      /\ firstn k (_peaks (after o)) = loadedPeaks (after o)
      /\ skipn k (_peaks (after o)) =
         repeat zero (length (_peaks (after o)) - k))
  /\ (forall n : Z,
        gtb duration zero = true ->
        Math_ceil (div duration INTERVAL) = of_Z n ->
        (Z.of_nat k <= n <= 4294967295)%Z ->
        publishes_interim o = true).
Proof.
  intros o k.
  assert (Hbuf : loadedPeaks (after o) =
                 loadedPeaks g ++ map to_linear (earlier ++ [peak])).
  { subst o. rewrite (proj1 (level_pushes _ _ _)).
    rewrite (proj1 (feed_pushes _ _ _)).
    now rewrite map_app, app_assoc. }
  split; [exact Hbuf|]. split.
  - intros Hpub. destruct (level_interim _ _ _ Hpub) as (holes & Hp & Hn).
    fold o in Hp, Hn. fold k in Hn. subst k. rewrite Hp, Hn.
    rewrite length_app, repeat_length.
    rewrite firstn_length_app, skipn_length_app.
    repeat split. f_equal. lia.
  - intros n Hd Hn Hk. subst o.
    apply (level_publishes _ _ _ n Hd Hn).
    subst k. rewrite (proj1 (level_pushes _ _ _)) in Hk.
    rewrite length_app in Hk. simpl in Hk. lia.
Qed.

(** C7: a second [restart] changes nothing: after one or two of them the
    session is marked started and the buffer and the visible peak array are
    both empty. *)
Theorem restart_idempotent (g : APPeaksGenerator) :
  restart (restart g) = restart g
  /\ started (restart g) = true
  /\ loadedPeaks (restart g) = []
  /\ get_peaks (restart g) = [].
Proof. repeat split. Qed.

(** C3, the claim as stated, fails: [generate_peaks_async] writes no field
    of the generator.  On a generator that was never restarted and holds one
    sample it leaves the session not started and both arrays as they were,
    where [restart] empties them. *)
Lemma generate_peaks_async_keeps_state :
  let g := fst (generate_peaks_async "file:///a.ogg" (of_Z 200000000)
                  stale_generator) in
  g <> restart stale_generator
  /\ started g = false
  /\ loadedPeaks g = [one]
  /\ get_peaks g = [one; zero].
Proof. repeat split. discriminate. Qed.

(** C3, amended: [generate_peaks_async] resets nothing.  It launches the
    pipeline for the given source, playing, with a handler for the given
    duration, and leaves [started], the buffer and the visible peak array as
    they are; the first sample of the new session is appended to whatever the
    buffer held.  The state that the claim describes is the one that a call
    of [restart] before it leaves. *)
Theorem generate_peaks_async_no_reset (uri : string) (duration peak : number)
    (g : APPeaksGenerator) :
  let launched := generate_peaks_async uri duration g in
  fst launched = g
  /\ snd launched = mkPipeline uri false false PLAYING duration
  /\ loadedPeaks
       (after (on_message (PeaksGenerator.duration (snd launched))
                 (ELEMENT_level peak) (fst launched)))
     = loadedPeaks g ++ [to_linear peak]
  /\ fst (generate_peaks_async uri duration (restart g)) =
     {| loadedPeaks := []; _peaks := []; started := true |}.
Proof.
  intros launched. repeat split.
  apply (proj1 (level_pushes _ _ _)).
Qed.

(** C6: after [restart], any samples and then end of stream, the visible
    peak array is the converted samples in arrival order, without padding,
    whatever the duration; it is stored through the setter, which notifies at
    once, and nothing is published through the throttle.  The buffer is
    empty afterwards, and end of stream empties it also on a generator that
    was not started, whose visible peak array it leaves alone. *)
Theorem eos_commits_samples (duration : number) (g g' : APPeaksGenerator)
    (samples : list number) :
  let o := on_message duration EOS (feed duration samples (restart g)) in
  get_peaks (after o) = map to_linear samples
  /\ length (get_peaks (after o)) = length samples
  /\ effects o = [notify_peaks; pipeline_set_state_NULL]
  /\ publishes_interim o = false
  /\ loadedPeaks (after o) = []
  /\ loadedPeaks (after (on_message duration EOS g')) = []
  /\ (started g' = false ->
      get_peaks (after (on_message duration EOS g')) = get_peaks g'
      /\ publishes_final (on_message duration EOS g') = false).
Proof.
  intros o.
  destruct (feed_pushes duration samples (restart g)) as [Hl Hs].
  cbn [restart loadedPeaks started app] in Hl, Hs.
  assert (Ho : o = mkOutcome
                 {| loadedPeaks := []; _peaks := map to_linear samples;
                    started := true |}
                 [notify_peaks; pipeline_set_state_NULL] Returned).
  { subst o. unfold PeaksGenerator.on_message. rewrite Hs.
    unfold set_peaks. cbn [fst snd _peaks started app]. now rewrite Hl, Hs. }
  rewrite Ho. cbn [after effects get_peaks _peaks loadedPeaks].
  split; [reflexivity|]. split; [apply length_map|].
  split; [reflexivity|]. split; [reflexivity|]. split; [reflexivity|].
  split.
  - unfold PeaksGenerator.on_message. now destruct (started g').
  - intros Hn. unfold PeaksGenerator.on_message. now rewrite Hn.
Qed.

(** C8: a level sample of [peak] decibels appends [Math.pow(10, peak / 20)]
    to the buffer; for 0 dB that is 1 and for -20 dB it is 1/10. *)
Theorem level_sample_conversion (duration peak : number) (g : APPeaksGenerator) :
  loadedPeaks (after (on_message duration (ELEMENT_level peak) g)) =
    loadedPeaks g ++ [Math_pow approx_pow (of_Z 10) (div peak (of_Z 20))]
  /\ to_linear zero = one
  /\ to_linear (of_Z (-20)) = Fin (1 # 10).
Proof.
  split; [apply (proj1 (level_pushes _ _ _))|]. split; reflexivity.
Qed.

End AggregatorFacts.

Section AggregatorExamples.
Import JS PeaksGenerator.

(** A duration of one second and the samples -20, -40 and 0 dB delivered
    after a [restart]: ten entries, the three samples and seven zeros. *)
Lemma interim_peaks_shape_witness :
  let pow := fun _ _ : Q => 0 in
  let duration := of_Z 1000000000 in
  let o := on_message pow duration (ELEMENT_level zero)
             (feed pow duration [of_Z (-20); of_Z (-40)] (restart constructor)) in
  publishes_interim o = true
  /\ of_nat (length (_peaks (after o))) = of_Z 10
  /\ firstn 3 (_peaks (after o)) = [Fin (1 # 10); Fin (1 # 100); one]
  /\ skipn 3 (_peaks (after o)) = repeat zero 7.
Proof.
  intros pow duration o.
  destruct (interim_peaks_shape pow duration (restart constructor)
              [of_Z (-20); of_Z (-40)] zero) as (Hbuf & Hshape & Hlive).
  assert (Hpub : publishes_interim o = true).
  { apply (Hlive 10%Z);
      [reflexivity | reflexivity | vm_compute; intuition discriminate]. }
  destruct (Hshape Hpub) as (Hlen & Hfirst & Hrest).
  split; [exact Hpub|]. split; [exact Hlen|].
  split; [exact Hfirst | exact Hrest].
Defined.

(** End of stream on a generator that was never started. *)
Lemma eos_commits_samples_witness :
  let o := on_message (fun _ _ : Q => 0) zero EOS stale_generator in
  started stale_generator = false
  /\ get_peaks (after o) = [one; zero]
  /\ publishes_final o = false.
Proof.
  intros o. split; [reflexivity|].
  apply (eos_commits_samples (fun _ _ : Q => 0) zero constructor
           stale_generator []).
  reflexivity.
Defined.

End AggregatorExamples.

(* ================================================================= *)
(** ** More on the drag handlers *)

Section DragSessions.
Import JS WaveForm.

(** With at least one peak and finite operands, the value that [dragUpdate]
    clamps is finite. *)
Lemma update_argument_finite (start offset_x : Q) (n : nat) :
  (0 < n)%nat ->
  exists q : Q,
    sub (Fin start) (div (Fin offset_x) (mul (of_nat n) GUTTER)) = Fin q.
Proof.
  intros Hn.
  change (mul (of_nat n) GUTTER)
    with (Fin (Qred (inject_Z (Z.of_nat n) * inject_Z 4))).
  assert (E : (Qred (inject_Z (Z.of_nat n) * inject_Z 4) ?= 0) = Gt).
  { apply Qgt_alt. rewrite Qred_correct, <- inject_Z_mult.
    unfold Qlt. simpl. lia. }
  unfold div. rewrite E. eexists. reflexivity.
Qed.

(** Updates delivered while no drag is active change nothing and call
    nothing, however many there are. *)
Theorem idle_updates_ignored (w : APWaveForm) (offsets : list number) :
  drag_start_position w = None ->
  run (map drag_update offsets) w = (w, []).
Proof.
  intros Hidle. induction offsets as [|o offsets IH]; [reflexivity|].
  cbn [map run handle]. unfold dragUpdate at 1. rewrite Hidle.
  now rewrite IH.
Qed.

Lemma idle_updates_ignored_witness :
  drag_start_position three_peaks = None
  /\ run (map drag_update [of_Z 12; of_Z (-7)]) three_peaks = (three_peaks, []).
Proof.
  split; [reflexivity|].
  apply (idle_updates_ignored three_peaks [of_Z 12; of_Z (-7)]). reflexivity.
Defined.

(** The state in the middle of a drag: the start position is the position
    at the begin, and the peaks are those of the begin. *)
Lemma mid_drag (w : APWaveForm) (offsets : list number) :
  let mid := fst (run (drag_begin :: map drag_update offsets) w) in
  drag_start_position mid = Some (_position w) /\ _peaks mid = _peaks w.
Proof.
  intros mid. subst mid.
  change (drag_begin :: map drag_update offsets)
    with ([drag_begin] ++ map drag_update offsets).
  rewrite run_app. cbn [fst].
  destruct (updates_frame offsets (fst (run [drag_begin] w))) as [Hp Hs].
  now rewrite Hp, Hs.
Qed.

Lemma run_snoc_update (es : list DragEvent) (offset_x : number) (w : APWaveForm) :
  fst (run (es ++ [drag_update offset_x]) w) =
  fst (dragUpdate offset_x (fst (run es w))).
Proof.
  rewrite run_app. cbn [fst run handle].
  now destruct (dragUpdate offset_x (fst (run es w))).
Qed.

(** During a drag every update starts again from the position at the
    begin: after a begin and any updates, the position is the one that the
    last update alone would have given. *)
Theorem last_update_wins (w : APWaveForm) (offsets : list number)
    (offset_x : number) :
  _position
    (fst (run (drag_begin :: map drag_update offsets ++ [drag_update offset_x]) w))
  = _position (fst (run [drag_begin; drag_update offset_x] w)).
Proof.
  change (drag_begin :: map drag_update offsets ++ [drag_update offset_x])
    with ((drag_begin :: map drag_update offsets) ++ [drag_update offset_x]).
  rewrite run_snoc_update.
  destruct (mid_drag w offsets) as [Hs Hp].
  rewrite (dragUpdate_dragging _ _ _ Hs), Hp. reflexivity.
Qed.

(** On a widget with at least one peak and a finite position, the position
    after every update of a drag with finite offsets lies in the unit
    interval. *)
Theorem drag_keeps_unit_interval (w : APWaveForm) (position : Q)
    (offsets : list number) (offset_x : Q) :
  _peaks w <> [] ->
  _position w = Fin position ->
  in_unit_interval
    (_position
       (fst (run (drag_begin :: map drag_update offsets
                    ++ [drag_update (Fin offset_x)]) w))) = true.
Proof.
  intros Hpeaks Hpos.
  change (drag_begin :: map drag_update offsets ++ [drag_update (Fin offset_x)])
    with ((drag_begin :: map drag_update offsets) ++ [drag_update (Fin offset_x)]).
  rewrite run_snoc_update.
  destruct (mid_drag w offsets) as [Hs Hp].
  apply (dragUpdate_in_unit_interval _ _ _ Hs).
  rewrite Hp, Hpos.
  destruct (update_argument_finite position offset_x (length (_peaks w)))
    as [q ->]; [|discriminate].
  destruct (_peaks w); [congruence | simpl; lia].
Qed.

Lemma drag_keeps_unit_interval_witness :
  in_unit_interval
    (_position
       (fst (run (drag_begin :: map drag_update [of_Z 3]
                    ++ [drag_update (Fin (-1000))]) three_peaks))) = true.
Proof.
  apply (drag_keeps_unit_interval three_peaks (1 # 2) [of_Z 3] (-1000)).
  - discriminate.
  - reflexivity.
Defined.

End DragSessions.

(* ================================================================= *)
(** ** More on rendering *)

Section RenderLoop.
Import JS WaveForm.

Lemma ltb_Fin_true (a b : Q) : ltb (Fin a) (Fin b) = true <-> a < b.
Proof.
  simpl. rewrite Qlt_alt. destruct (a ?= b); split; congruence.
Qed.

Lemma ltb_Fin_false (a b : Q) : ltb (Fin a) (Fin b) = false <-> b <= a.
Proof.
  split.
  - intros H. apply Qnot_lt_le. intros Hlt.
    apply ltb_Fin_true in Hlt. congruence.
  - intros H. destruct (ltb (Fin a) (Fin b)) eqn:E; [|reflexivity].
    apply ltb_Fin_true in E. lra.
Qed.

(** A pointer that passed the test [pointer < 0] passes it again after
    [pointer += GUTTER]. *)
Lemma add_GUTTER_not_negative (pointer : number) :
  ltb pointer zero = false -> ltb (add pointer GUTTER) zero = false.
Proof.
  destruct pointer as [q| | |]; try easy.
  intros H. apply ltb_Fin_false in H.
  change (add (Fin q) GUTTER) with (Fin (Qred (q + 4))).
  apply ltb_Fin_false. rewrite Qred_correct.
  change (inject_Z 0) with 0 in *. lra.
Qed.

(** A pointer to the right of the divider stays there. *)
Lemma add_GUTTER_right (pointer horizCenter : number) :
  gtb pointer horizCenter = true -> gtb (add pointer GUTTER) horizCenter = true.
Proof.
  unfold gtb.
  destruct horizCenter as [h| | |], pointer as [q| | |]; try easy.
  intros H. apply ltb_Fin_true in H.
  change (add (Fin q) GUTTER) with (Fin (Qred (q + 4))).
  apply ltb_Fin_true. rewrite Qred_correct. lra.
Qed.

(** The adjustment before the loop leaves a pointer that passes the test
    [pointer < 0], on every number. *)
Lemma skip_invisible_not_negative (pointer : number) :
  ltb (snd (skip_invisible pointer)) zero = false.
Proof.
  unfold skip_invisible. destruct (ltb pointer zero) eqn:E; cbn [snd];
    [|exact E].
  destruct pointer as [q| | |]; try easy.
  change (add (Fin q) (neg (Math_floor (Fin q))))
    with (Fin (Qred (q + Qred (- inject_Z (Qfloor q))))).
  apply ltb_Fin_false. rewrite !Qred_correct.
  pose proof (Qfloor_le q) as Hfloor.
  change (inject_Z 0) with 0. lra.
Qed.

Lemma slice_is_skipn {A : Type} (arr : list A) (start : number) :
  exists n : nat, slice arr start = skipn n arr.
Proof.
  unfold slice. destruct (ToIntegerOrInfinity start) as [z| |].
  - destruct (z <? 0)%Z; eauto.
  - exists (length arr). now rewrite skipn_all.
  - now exists O.
Qed.

(** From a pointer that is not negative the loop draws the peaks it is
    given one after the other until it stops. *)
Lemma draw_loop_prefix (width horizCenter : number) (peaks : list number) :
  forall pointer : number,
    ltb pointer zero = false ->
    map bar_peak (draw_loop width horizCenter pointer peaks) =
    firstn (length (draw_loop width horizCenter pointer peaks)) peaks.
Proof.
  induction peaks as [|peak rest IH]; intros pointer H; [reflexivity|].
  cbn [draw_loop]. rewrite H.
  destruct (gtb pointer width); [reflexivity|].
  cbn [map length firstn bar_peak]. f_equal.
  apply IH. now apply add_GUTTER_not_negative.
Qed.

Lemma bars_prefix_of_visible (w : APWaveForm) (width : number) :
  map bar_peak (bars w width) =
  firstn (length (bars w width)) (visible_peaks w width).
Proof. unfold bars. apply draw_loop_prefix, skip_invisible_not_negative. Qed.

(** The test at the head of the loop body never fires: the bars drawn are
    the sliced peaks in order, without a gap, up to the point where the loop
    stops; so they are a run of consecutive peaks of the array, each drawn
    once, and there are no more bars than peaks. *)
Theorem bars_are_consecutive_peaks (w : APWaveForm) (width : number) :
  map bar_peak (bars w width) =
    firstn (length (bars w width)) (visible_peaks w width)
  /\ (exists n : nat,
        map bar_peak (bars w width) =
        firstn (length (bars w width)) (skipn n (_peaks w)))
  /\ (length (bars w width) <= length (_peaks w))%nat.
Proof.
  pose proof (bars_prefix_of_visible w width) as H.
  destruct (slice_is_skipn (_peaks w)
              (div (fst (skip_invisible (initial_pointer w width))) GUTTER))
    as [n Hn].
  fold (visible_peaks w width) in Hn.
  split; [exact H|]. split.
  - exists n. now rewrite <- Hn.
  - apply (f_equal (@length number)) in H.
    rewrite length_map, length_firstn, Hn, length_skipn in H. lia.
Qed.

(** Every bar is drawn at a pointer that is neither negative nor beyond the
    width; for finite numbers, at a pointer between 0 and the width. *)
Theorem bars_inside_view (w : APWaveForm) (width : number) (b : Bar) :
  In b (bars w width) ->
  ltb (bar_pointer b) zero = false
  /\ gtb (bar_pointer b) width = false
  /\ (forall x wd : Q,
        bar_pointer b = Fin x -> width = Fin wd -> 0 <= x /\ x <= wd).
Proof.
  intros Hin. apply draw_loop_bar in Hin. destruct Hin as (Hneg & Hout & _).
  split; [exact Hneg|]. split; [exact Hout|].
  intros x wd Hx Hw. rewrite Hx in Hneg, Hout. rewrite Hw in Hout.
  apply ltb_Fin_false in Hneg. apply ltb_Fin_false in Hout.
  change (inject_Z 0) with 0 in Hneg. now split.
Qed.

Lemma bars_inside_view_witness :
  let b := {| bar_pointer := of_Z 8; bar_zone := RightZone; bar_peak := one |} in
  In b (bars three_peaks (of_Z 8)) /\ 0 <= 8 /\ 8 <= 8.
Proof.
  intros b. split; [vm_compute; auto|].
  apply (bars_inside_view three_peaks (of_Z 8) b); [vm_compute; auto | | ];
    reflexivity.
Defined.

End RenderLoop.

Section RenderOrder.
Import JS WaveForm.

(** The first bar of the loop stands at the pointer the loop starts with. *)
Lemma draw_loop_head (width horizCenter : number) (peaks : list number)
    (pointer : number) (b : Bar) :
  ltb pointer zero = false ->
  nth_error (draw_loop width horizCenter pointer peaks) 0 = Some b ->
  bar_pointer b = pointer.
Proof.
  intros H. destruct peaks as [|peak rest]; [discriminate|].
  cbn [draw_loop]. rewrite H.
  destruct (gtb pointer width); [discriminate|].
  now intros [= <-].
Qed.

Lemma draw_loop_step (width horizCenter : number) (peaks : list number) :
  forall (pointer : number) (i : nat) (b1 b2 : Bar),
    ltb pointer zero = false ->
    nth_error (draw_loop width horizCenter pointer peaks) i = Some b1 ->
    nth_error (draw_loop width horizCenter pointer peaks) (S i) = Some b2 ->
    bar_pointer b2 = add (bar_pointer b1) GUTTER.
Proof.
  induction peaks as [|peak rest IH]; intros pointer i b1 b2 H;
    [now destruct i|].
  cbn [draw_loop]. rewrite H.
  destruct (gtb pointer width); [now destruct i|].
  pose proof (add_GUTTER_not_negative pointer H) as H'.
  destruct i as [|i]; cbn [nth_error].
  - intros [= <-] H2. cbn [bar_pointer].
    now apply (draw_loop_head _ _ _ _ _ H') in H2.
  - now apply IH.
Qed.

(** Neighbouring bars are [GUTTER] apart, and the first bar stands at the
    pointer left by the adjustment before the loop. *)
Theorem bars_evenly_spaced (w : APWaveForm) (width : number) (i : nat)
    (b1 b2 : Bar) :
  nth_error (bars w width) i = Some b1 ->
  nth_error (bars w width) (S i) = Some b2 ->
  bar_pointer b2 = add (bar_pointer b1) GUTTER
  /\ (i = O ->
      bar_pointer b1 = snd (skip_invisible (initial_pointer w width))).
Proof.
  intros H1 H2. split.
  - exact (draw_loop_step _ _ _ _ _ _ _
             (skip_invisible_not_negative _) H1 H2).
  - intros ->.
    exact (draw_loop_head _ _ _ _ _ (skip_invisible_not_negative _) H1).
Qed.

Lemma bars_evenly_spaced_witness :
  let b1 := {| bar_pointer := of_Z 0; bar_zone := LeftZone; bar_peak := one |} in
  let b2 := {| bar_pointer := of_Z 4; bar_zone := LeftZone;
               bar_peak := Fin (1 # 2) |} in
  nth_error (bars three_peaks (of_Z 8)) 0 = Some b1
  /\ nth_error (bars three_peaks (of_Z 8)) 1 = Some b2
  /\ bar_pointer b2 = add (bar_pointer b1) GUTTER.
Proof.
  intros b1 b2. split; [reflexivity|]. split; [reflexivity|].
  apply (bars_evenly_spaced three_peaks (of_Z 8) 0 b1 b2); reflexivity.
Defined.

(** Once the pointer is to the right of the divider, every bar of the loop
    is a right-zone bar. *)
Lemma draw_loop_all_right (width horizCenter : number) (peaks : list number) :
  forall pointer : number,
    ltb pointer zero = false ->
    gtb pointer horizCenter = true ->
    Forall (fun b => bar_zone b = RightZone)
           (draw_loop width horizCenter pointer peaks).
Proof.
  induction peaks as [|peak rest IH]; intros pointer H Hr; [constructor|].
  cbn [draw_loop]. rewrite H, Hr.
  destruct (gtb pointer width); constructor; [reflexivity|].
  apply IH; [now apply add_GUTTER_not_negative | now apply add_GUTTER_right].
Qed.

Lemma draw_loop_zones (width horizCenter : number) (peaks : list number) :
  forall (pointer : number) (i j : nat) (b1 b2 : Bar),
    ltb pointer zero = false ->
    (i <= j)%nat ->
    nth_error (draw_loop width horizCenter pointer peaks) i = Some b1 ->
    nth_error (draw_loop width horizCenter pointer peaks) j = Some b2 ->
    bar_zone b1 = RightZone -> bar_zone b2 = RightZone.
Proof.
  induction peaks as [|peak rest IH]; intros pointer i j b1 b2 H Hij;
    [now destruct i|].
  destruct i as [|i].
  - (* the first bar is a right-zone bar: so are all *)
    intros H1 H2 Hz.
    assert (Hr : gtb pointer horizCenter = true).
    { revert H1. cbn [draw_loop]. rewrite H.
      destruct (gtb pointer width); [discriminate|].
      cbn [nth_error]. intros [= <-]. cbn [bar_zone] in Hz.
      now destruct (gtb pointer horizCenter). }
    pose proof (draw_loop_all_right width horizCenter (peak :: rest)
                  pointer H Hr) as Hall.
    rewrite Forall_forall in Hall. apply Hall.
    now apply nth_error_In with j.
  - destruct j as [|j]; [lia|].
    cbn [draw_loop]. rewrite H.
    destruct (gtb pointer width); [discriminate|].
    cbn [nth_error]. apply IH; [now apply add_GUTTER_not_negative | lia].
Qed.

(** The bars change colour at most once, from the left-zone colour to the
    right-zone colour: after a right-zone bar every later bar is a
    right-zone bar. *)
Theorem zones_left_then_right (w : APWaveForm) (width : number) (i j : nat)
    (b1 b2 : Bar) :
  (i <= j)%nat ->
  nth_error (bars w width) i = Some b1 ->
  nth_error (bars w width) j = Some b2 ->
  bar_zone b1 = RightZone -> bar_zone b2 = RightZone.
Proof.
  intros Hij. unfold bars.
  apply draw_loop_zones; [apply skip_invisible_not_negative | exact Hij].
Qed.

(** Ten equal peaks at position 3/10 and width 16: the divider is at 8 and
    the bars stand at 0, 4, 8, 12, 16, the last two to its right. *)
Lemma zones_left_then_right_witness :
  let w := {| _peaks := repeat one 10; _position := Fin (3 # 10);
              drag_start_position := None |} in
  let b1 := {| bar_pointer := of_Z 12; bar_zone := RightZone; bar_peak := one |} in
  let b2 := {| bar_pointer := of_Z 16; bar_zone := RightZone; bar_peak := one |} in
  (3 <= 4)%nat
  /\ nth_error (bars w (of_Z 16)) 3 = Some b1
  /\ nth_error (bars w (of_Z 16)) 4 = Some b2
  /\ bar_zone b2 = RightZone.
Proof.
  intros w b1 b2. split; [lia|]. split; [reflexivity|]. split; [reflexivity|].
  apply (zones_left_then_right w (of_Z 16) 3 4 b1 b2);
    [lia | reflexivity | reflexivity | reflexivity].
Defined.

(** With no peaks, as after [destroy], [drawFunc] draws the divider and
    nothing else, whatever the position and the size: a line of width 2 down
    the middle in the accent colour, or in the foreground colour where the
    accent colour is not found. *)
Theorem destroy_leaves_divider (w : APWaveForm) (styleContext : StyleContext)
    (width height : number) :
  let cleared := fst (destroy w) in
  let accent := lookup_color styleContext "accent_color"%string in
  _peaks cleared = []
  /\ _position cleared = _position w
  /\ drag_start_position cleared = drag_start_position w
  /\ drawFunc cleared styleContext width height =
     [ setLineCap_ROUND; setLineWidth (of_Z 2);
       setSource (if fst accent then snd accent else get_color styleContext);
       moveTo (div width (of_Z 2)) (sub (div height (of_Z 2)) height);
       lineTo (div width (of_Z 2)) (add (div height (of_Z 2)) height);
       stroke; setLineWidth (of_Z 1) ].
Proof.
  intros cleared accent. repeat split.
  unfold drawFunc, bars, visible_peaks. cbn [destroy fst _peaks cleared].
  destruct (slice_is_skipn (@nil number)
              (div (fst (skip_invisible (initial_pointer cleared width))) GUTTER))
    as [n Hn].
  subst cleared. cbn [destroy fst _peaks] in Hn. rewrite Hn, skipn_nil.
  reflexivity.
Qed.

End RenderOrder.

Section RenderBound.
Import JS WaveForm.

Lemma Qfloor_minus_one (x : Q) : Qfloor (x - 1) = (Qfloor x - 1)%Z.
Proof.
  pose proof (Qfloor_le x) as Ha. pose proof (Qlt_floor x) as Ha'.
  pose proof (Qfloor_le (x - 1)) as Hb. pose proof (Qlt_floor (x - 1)) as Hb'.
  rewrite inject_Z_plus in Ha', Hb'. change (inject_Z 1) with 1 in Ha', Hb'.
  assert (H1 : (Qfloor x < Qfloor (x - 1) + 1 + 1)%Z).
  { rewrite Zlt_Qlt, !inject_Z_plus. change (inject_Z 1) with 1. lra. }
  assert (H2 : (Qfloor (x - 1) < Qfloor x)%Z).
  { rewrite Zlt_Qlt. lra. }
  lia.
Qed.

Lemma Qfloor_nonneg (x : Q) : 0 <= x -> (0 <= Qfloor x)%Z.
Proof.
  intros Hx. pose proof (Qlt_floor x) as H.
  assert (H0 : (0 < Qfloor x + 1)%Z).
  { rewrite Zlt_Qlt, inject_Z_plus.
    change (inject_Z 0) with 0. change (inject_Z 1) with 1.
    rewrite inject_Z_plus in H. change (inject_Z 1) with 1 in H. lra. }
  lia.
Qed.

(** From a finite pointer that is not negative the loop draws at most one
    bar for every [GUTTER] of room up to the width. *)
Lemma draw_loop_count (wd : Q) (horizCenter : number) (peaks : list number) :
  forall q : Q,
    0 <= q ->
    (Z.of_nat (length (draw_loop (Fin wd) horizCenter (Fin q) peaks))
     <= Z.max 0 (Qfloor ((wd - q) / 4) + 1))%Z.
Proof.
  induction peaks as [|peak rest IH]; intros q Hq; [simpl; lia|].
  cbn [draw_loop].
  assert (Hneg : ltb (Fin q) zero = false)
    by (apply ltb_Fin_false; exact Hq).
  rewrite Hneg.
  destruct (gtb (Fin q) (Fin wd)) eqn:Hout; [simpl; lia|].
  unfold gtb in Hout. apply ltb_Fin_false in Hout.
  change (add (Fin q) GUTTER) with (Fin (Qred (q + 4))).
  assert (Hq' : 0 <= Qred (q + 4)) by (rewrite Qred_correct; lra).
  specialize (IH _ Hq').
  assert (E : (wd - Qred (q + 4)) / 4 == (wd - q) / 4 - 1)
    by (rewrite Qred_correct; field).
  rewrite E, Qfloor_minus_one in IH.
  assert (H0 : (0 <= Qfloor ((wd - q) / 4))%Z)
    by (apply Qfloor_nonneg; apply Qle_shift_div_l; lra).
  cbn [length]. lia.
Qed.

(** With a finite position the pointer is finite, before and after the
    adjustment. *)
Lemma adjusted_pointer_finite (w : APWaveForm) (position wd : Q) :
  _position w = Fin position ->
  exists q : Q,
    snd (skip_invisible (initial_pointer w (Fin wd))) = Fin q /\ 0 <= q.
Proof.
  intros Hpos.
  assert (Hp : exists p, initial_pointer w (Fin wd) = Fin p).
  { unfold initial_pointer. rewrite Hpos. eexists. reflexivity. }
  destruct Hp as [p Hp].
  pose proof (skip_invisible_not_negative (initial_pointer w (Fin wd))) as Hn.
  rewrite Hp in *. unfold skip_invisible in *.
  destruct (ltb (Fin p) zero); cbn [snd] in *;
    eexists; (split; [reflexivity|]);
    apply ltb_Fin_false in Hn; exact Hn.
Qed.

(** However many peaks there are, with a finite position and a finite width
    the number of bars drawn is at most [floor(width / GUTTER) + 1], and
    none is drawn for a negative width. *)
Theorem bars_bounded_by_width (w : APWaveForm) (position wd : Q) :
  _position w = Fin position ->
  (Z.of_nat (length (bars w (Fin wd))) <= Z.max 0 (Qfloor (wd / 4) + 1))%Z.
Proof.
  intros Hpos. unfold bars.
  destruct (adjusted_pointer_finite w position wd Hpos) as (q & -> & Hq).
  pose proof (draw_loop_count wd (div (Fin wd) (of_Z 2))
                (visible_peaks w (Fin wd)) q Hq) as Hcount.
  assert (Hle : (Qfloor ((wd - q) / 4) <= Qfloor (wd / 4))%Z).
  { apply Qfloor_resp_le. apply Qmult_le_compat_r; [lra | discriminate]. }
  lia.
Qed.

(** A thousand peaks at position 1/2 in a width of 16: five bars at most. *)
Lemma bars_bounded_by_width_witness :
  let w := {| _peaks := repeat one 1000; _position := Fin (1 # 2);
              drag_start_position := None |} in
  (Z.of_nat (length (bars w (Fin 16))) <= 5)%Z.
Proof.
  intros w. apply (bars_bounded_by_width w (1 # 2) 16). reflexivity.
Defined.

End RenderBound.

(* ================================================================= *)
(** ** More on the peak aggregator *)

Section AggregatorStreams.
Import JS PeaksGenerator.

Variable approx_pow : Q -> Q -> Q.

Local Abbreviation to_linear := (to_linear approx_pow).
Local Abbreviation on_message := (on_message approx_pow).
Local Abbreviation feed := (feed approx_pow).
Local Abbreviation deliver := (deliver approx_pow).

(** No message writes [started]. *)
Lemma on_message_started (duration : number) (message : Message)
    (g : APPeaksGenerator) :
  started (after (on_message duration message g)) = started g.
Proof.
  destruct message as [peak| |].
  - apply (proj2 (level_pushes approx_pow duration peak g)).
  - destruct g as [buffer visible [|]]; reflexivity.
  - reflexivity.
Qed.

Lemma deliver_started (inbox : list (number * Message)) :
  forall g : APPeaksGenerator, started (fst (deliver inbox g)) = started g.
Proof.
  induction inbox as [|[duration message] rest IH]; intros g; [reflexivity|].
  cbn [PeaksGenerator.deliver].
  specialize (IH (after (on_message duration message g))).
  destruct (deliver rest (after (on_message duration message g))) as [g' out].
  cbn [fst] in *. rewrite IH. apply on_message_started.
Qed.

(** End of stream on a started generator: the buffer becomes the visible
    peak array and is emptied. *)
Lemma eos_started (duration : number) (g : APPeaksGenerator) :
  started g = true ->
  on_message duration EOS g =
  mkOutcome {| loadedPeaks := []; _peaks := loadedPeaks g; started := true |}
            [notify_peaks; pipeline_set_state_NULL] Returned.
Proof.
  intros Hs. unfold PeaksGenerator.on_message. rewrite Hs. cbn. now rewrite Hs.
Qed.

(** Nothing but [restart] writes [started], and nothing clears it: the
    messages of any pipelines, in any order, leave it as it was.  So after
    one [restart] every end of stream, of whatever session, replaces the
    visible peak array and notifies. *)
Theorem started_never_cleared (inbox : list (number * Message))
    (g : APPeaksGenerator) (duration : number) :
  started (fst (deliver inbox g)) = started g
  /\ started (fst (deliver inbox (restart g))) = true
  /\ effects (on_message duration EOS (fst (deliver inbox (restart g)))) =
     [notify_peaks; pipeline_set_state_NULL]
  /\ get_peaks (after (on_message duration EOS (fst (deliver inbox (restart g)))))
     = loadedPeaks (fst (deliver inbox (restart g))).
Proof.
  assert (Hs : started (fst (deliver inbox (restart g))) = true)
    by now rewrite deliver_started.
  split; [apply deliver_started|]. split; [exact Hs|].
  rewrite (eos_started duration _ Hs). now split.
Qed.

(** With a duration that is not positive (zero, negative or [NaN]) level
    samples are accumulated and nothing else happens: the visible peak array
    stays as it is and no notification is asked for, however many samples
    arrive. *)
Theorem unknown_duration_publishes_nothing (duration : number)
    (samples : list number) (g : APPeaksGenerator) :
  gtb duration zero = false ->
  deliver (map (fun peak => (duration, ELEMENT_level peak)) samples) g =
  ({| loadedPeaks := loadedPeaks g ++ map to_linear samples;
      _peaks := _peaks g; started := started g |}, []).
Proof.
  intros Hd. revert g.
  induction samples as [|peak rest IH]; intros g.
  - cbn. rewrite app_nil_r. now destruct g.
  - cbn [map PeaksGenerator.deliver]. unfold PeaksGenerator.on_message at 1 2.
    rewrite Hd. cbn [after effects]. rewrite IH.
    cbn [loadedPeaks _peaks started app]. now rewrite <- app_assoc.
Qed.

(** A level sample that makes the buffer longer than
    [ceil(duration / INTERVAL)] ends in the [RangeError] of [new Array]: the
    sample stays in the buffer, the visible peak array is not written and no
    notification is asked for. *)
Theorem level_overflow_RangeError (duration peak : number)
    (g : APPeaksGenerator) (n : Z) :
  gtb duration zero = true ->
  Math_ceil (div duration INTERVAL) = of_Z n ->
  (n < Z.of_nat (S (length (loadedPeaks g))))%Z ->
  on_message duration (ELEMENT_level peak) g =
  mkOutcome {| loadedPeaks := loadedPeaks g ++ [to_linear peak];
               _peaks := _peaks g; started := started g |}
            [] RangeError.
Proof.
  intros Hd Hn Hk. unfold PeaksGenerator.on_message. rewrite Hd, Hn.
  unfold of_nat. rewrite sub_of_Z, new_Array_of_Z.
  rewrite length_app. cbn [length].
  replace (0 <=? n - Z.of_nat (length (loadedPeaks g) + 1))%Z with false;
    [reflexivity|].
  symmetry. apply Z.leb_gt. lia.
Qed.

(** End of stream closes a stream off from the next: on a started
    generator, after an end of stream, further samples and a second end of
    stream, the visible peak array holds the converted samples that came
    after the first end of stream and no others. *)
Theorem eos_separates_streams (d1 d2 : number) (g : APPeaksGenerator)
    (first second : list number) :
  started g = true ->
  let g1 := after (on_message d1 EOS (feed d1 first g)) in
  let g2 := after (on_message d2 EOS (feed d2 second g1)) in
  get_peaks g1 = loadedPeaks g ++ map to_linear first
  /\ get_peaks g2 = map to_linear second
  /\ loadedPeaks g2 = [].
Proof.
  intros Hs g1 g2.
  destruct (feed_pushes approx_pow d1 first g) as [Hl1 Hs1].
  rewrite Hs in Hs1.
  assert (E1 : g1 = {| loadedPeaks := [];
                       _peaks := loadedPeaks g ++ map to_linear first;
                       started := true |}).
  { subst g1. rewrite (eos_started d1 _ Hs1). cbn [after]. now rewrite Hl1. }
  destruct (feed_pushes approx_pow d2 second g1) as [Hl2 Hs2].
  rewrite E1 in Hl2, Hs2. cbn [loadedPeaks started app] in Hl2, Hs2.
  rewrite <- E1 in Hl2, Hs2.
  subst g2. rewrite (eos_started d2 _ Hs2). cbn [after get_peaks _peaks loadedPeaks].
  rewrite Hl2, E1. now cbn.
Qed.

End AggregatorStreams.

Section AggregatorStreamExamples.
Import JS PeaksGenerator.

(** Two samples with the duration 0. *)
Lemma unknown_duration_publishes_nothing_witness :
  deliver (fun _ _ : Q => 0)
    [(zero, ELEMENT_level zero); (zero, ELEMENT_level (of_Z (-20)))]
    stale_generator =
  ({| loadedPeaks := [one; one; Fin (1 # 10)]; _peaks := [one; zero];
      started := false |}, []).
Proof.
  apply (unknown_duration_publishes_nothing (fun _ _ : Q => 0) zero
           [zero; of_Z (-20)] stale_generator).
  reflexivity.
Defined.

(** A duration of 0.1 s gives one entry; the buffer of [stale_generator]
    holds one sample already. *)
Lemma level_overflow_RangeError_witness :
  completion (on_message (fun _ _ : Q => 0) (of_Z 100000000)
                (ELEMENT_level zero) stale_generator) = RangeError.
Proof.
  rewrite (level_overflow_RangeError (fun _ _ : Q => 0) (of_Z 100000000) zero
             stale_generator 1); [reflexivity | reflexivity | reflexivity |].
  simpl. lia.
Defined.

(** Two streams of one sample each after a [restart]. *)
Lemma eos_separates_streams_witness :
  let pow := fun _ _ : Q => 0 in
  let g := restart stale_generator in
  get_peaks
    (after (on_message pow zero EOS
              (feed pow zero [of_Z (-20)]
                 (after (on_message pow zero EOS (feed pow zero [zero] g))))))
  = [Fin (1 # 10)].
Proof.
  intros pow g.
  apply (eos_separates_streams pow zero zero g [zero] [of_Z (-20)]).
  reflexivity.
Defined.

End AggregatorStreamExamples.

(* ================================================================= *)
(** ** The pointer before the loop *)

Section PointerFacts.
Import JS WaveForm.

Lemma Qred_inject_Z (q : Q) (z : Z) : q == inject_Z z -> Qred q = inject_Z z.
Proof.
  intros H. transitivity (Qred (inject_Z z)).
  - now apply Qred_complete.
  - apply Qcanon.Qred_identity. simpl. apply Z.gcd_1_r.
Qed.

Lemma add_of_Z (a b : Z) : add (of_Z a) (of_Z b) = of_Z (a + b).
Proof.
  unfold add, of_Z. f_equal. apply Qred_inject_Z.
  now rewrite inject_Z_plus.
Qed.

Lemma neg_of_Z (a : Z) : neg (of_Z a) = of_Z (- a).
Proof.
  unfold neg, of_Z. f_equal. apply Qred_inject_Z.
  now rewrite inject_Z_opp.
Qed.

Lemma div_GUTTER_exact (m : Z) : div (of_Z (4 * m)) GUTTER = of_Z m.
Proof.
  change (div (of_Z (4 * m)) GUTTER)
    with (Fin (Qred (inject_Z (4 * m) / inject_Z 4))).
  unfold of_Z. f_equal. apply Qred_inject_Z.
  rewrite inject_Z_mult. change (inject_Z 4) with 4. field.
Qed.

Lemma slice_of_Z {A : Type} (arr : list A) (m : Z) :
  (0 <= m)%Z -> slice arr (of_Z m) = skipn (Z.to_nat m) arr.
Proof.
  intros Hm. unfold slice, of_Z, ToIntegerOrInfinity, Qtrunc.
  assert (E : Qle_bool 0 (inject_Z m) = true).
  { apply Qle_bool_iff. change 0 with (inject_Z 0). now rewrite <- Zle_Qle. }
  rewrite E, Qfloor_Z.
  destruct (m <? 0)%Z eqn:Em; [apply Z.ltb_lt in Em; lia | reflexivity].
Qed.

(** With a position in the unit interval the divider lies within the
    waveform: the first peak is placed at or left of [horizCenter] and the
    place after the last peak, [GUTTER] times the number of peaks further, is
    at or right of it. *)
Theorem divider_within_waveform (w : APWaveForm) (position wd : Q) :
  _position w = Fin position ->
  0 <= position /\ position <= 1 ->
  exists p : Q,
    initial_pointer w (Fin wd) = Fin p
    /\ p <= wd / 2
    /\ wd / 2 <= p + 4 * inject_Z (Z.of_nat (length (_peaks w))).
Proof.
  intros Hpos [H0 H1].
  set (len := inject_Z (Z.of_nat (length (_peaks w)))).
  assert (Hlen : 0 <= len).
  { unfold len. change 0 with (inject_Z 0). rewrite <- Zle_Qle. lia. }
  exists (Qred (Qred (wd / 2) + Qred (- Qred (Qred (position * len) * 4)))).
  split.
  - unfold initial_pointer. rewrite Hpos. reflexivity.
  - rewrite !Qred_correct. split; nra.
Qed.

Lemma divider_within_waveform_witness :
  exists p : Q,
    initial_pointer three_peaks (Fin 8) = Fin p
    /\ p <= 8 / 2
    /\ 8 / 2 <= p + 4 * inject_Z (Z.of_nat (length (_peaks three_peaks))).
Proof.
  apply (divider_within_waveform three_peaks (1 # 2) 8).
  - reflexivity.
  - split; discriminate.
Defined.

(** Where the pointer first computed is not negative, no peak is left out:
    the bar number [i] is the peak number [i], and the first bar stands at
    that pointer. *)
Theorem bars_from_first_peak (w : APWaveForm) (width : number) (i : nat)
    (b : Bar) :
  ltb (initial_pointer w width) zero = false ->
  nth_error (bars w width) i = Some b ->
  nth_error (_peaks w) i = Some (bar_peak b)
  /\ (i = O -> bar_pointer b = initial_pointer w width).
Proof.
  intros Hp Hb.
  assert (Hskip : skip_invisible (initial_pointer w width)
                  = (zero, initial_pointer w width))
    by (unfold skip_invisible; now rewrite Hp).
  assert (Hvis : visible_peaks w width = _peaks w)
    by (unfold visible_peaks; rewrite Hskip; reflexivity).
  split.
  - pose proof (bars_prefix_of_visible w width) as Hpre.
    rewrite Hvis in Hpre.
    assert (Hi : (i < length (bars w width))%nat)
      by (apply nth_error_Some; congruence).
    apply (f_equal (fun l => nth_error l i)) in Hpre.
    rewrite nth_error_map, Hb, nth_error_firstn in Hpre.
    apply Nat.ltb_lt in Hi. rewrite Hi in Hpre. now symmetry.
  - intros ->. unfold bars in Hb. rewrite Hskip in Hb. cbn [snd] in Hb.
    now apply (draw_loop_head _ _ _ _ _ Hp) in Hb.
Qed.

Lemma bars_from_first_peak_witness :
  let w := {| _peaks := repeat one 10; _position := Fin (1 # 2);
              drag_start_position := None |} in
  let b := {| bar_pointer := of_Z 30; bar_zone := LeftZone; bar_peak := one |} in
  nth_error (_peaks w) 0 = Some (bar_peak b)
  /\ (0%nat = 0%nat -> bar_pointer b = initial_pointer w (of_Z 100)).
Proof.
  intros w b.
  apply (bars_from_first_peak w (of_Z 100) 0 b); reflexivity.
Defined.



(** Where the pointer first computed is [-GUTTER * m] for a whole [m >= 1],
    the [m] leading peaks are left out and the loop starts at pointer 0: the
    first bar, if there is one, is the peak number [m] drawn at 0. *)
Theorem aligned_skip (w : APWaveForm) (width : number) (m : Z) :
  (1 <= m)%Z ->
  initial_pointer w width = of_Z (- (4 * m)) ->
  skip_invisible (initial_pointer w width) = (of_Z (4 * m), zero)
  /\ visible_peaks w width = skipn (Z.to_nat m) (_peaks w)
  /\ (forall b : Bar,
        nth_error (bars w width) 0 = Some b ->
        bar_pointer b = zero
        /\ nth_error (_peaks w) (Z.to_nat m) = Some (bar_peak b)).
Proof.
  intros Hm Hp.
  assert (Hskip : skip_invisible (initial_pointer w width)
                  = (of_Z (4 * m), zero)).
  { rewrite Hp. unfold skip_invisible.
    assert (Hneg : ltb (of_Z (- (4 * m))) zero = true).
    { apply ltb_Fin_true. rewrite <- Zlt_Qlt. lia. }
    rewrite Hneg.
    change (Math_floor (of_Z (- (4 * m))))
      with (of_Z (Qfloor (inject_Z (- (4 * m))))).
    rewrite Qfloor_Z, neg_of_Z, add_of_Z. unfold zero.
    f_equal; f_equal; lia. }
  assert (Hvis : visible_peaks w width = skipn (Z.to_nat m) (_peaks w)).
  { unfold visible_peaks. rewrite Hskip. cbn [fst].
    rewrite div_GUTTER_exact. apply slice_of_Z. lia. }
  split; [exact Hskip|]. split; [exact Hvis|].
  intros b Hb. split.
  - unfold bars in Hb. rewrite Hskip in Hb. cbn [snd] in Hb.
    now apply draw_loop_head in Hb.
  - pose proof (bars_prefix_of_visible w width) as Hpre.
    rewrite Hvis in Hpre.
    assert (Hi : (0 < length (bars w width))%nat)
      by (apply nth_error_Some; congruence).
    apply (f_equal (fun l => nth_error l 0)) in Hpre.
    rewrite nth_error_map, Hb, nth_error_firstn in Hpre.
    apply Nat.ltb_lt in Hi. rewrite Hi in Hpre.
    rewrite nth_error_skipn, Nat.add_0_r in Hpre. now symmetry.
Qed.

(** Two peaks at position 1 in a width of 8: the pointer starts at -4. *)
Lemma aligned_skip_witness :
  let w := {| _peaks := [one; Fin (1 # 2)]; _position := one;
              drag_start_position := None |} in
  skip_invisible (initial_pointer w (of_Z 8)) = (of_Z 4, zero)
  /\ visible_peaks w (of_Z 8) = [Fin (1 # 2)].
Proof.
  intros w.
  destruct (aligned_skip w (of_Z 8) 1) as (Hskip & Hvis & _);
    [lia | reflexivity |].
  split; [exact Hskip | exact Hvis].
Defined.

End PointerFacts.
